(** * Transit-mode summary notebook (notebooks/2015/mode/transit_mode.ipynb)

    A shallow embedding of the notebook's aggregation pipeline: the joined
    frame [transit_mode], the three group-by Series, the [summary] frame,
    the table with the two appended total rows, its cell formatting, and
    the bar chart.

    Numbers.  Counts are Python/NumPy integers and are modelled by [nat].
    Weights are float64 columns; they are modelled by exact rationals
    ([rat]) with [None] for a missing value (pandas' NaN in a float
    column), so every statement below is about exact arithmetic: rounding
    and overflow are not modelled.  The results of float division are
    modelled by [float64], the rationals extended with the special values
    that a division by zero produces. *)

From HB Require Import structures.
From mathcomp Require Import boot order algebra.
From Stdlib Require Import String.

Set Implicit Arguments.
Unset Strict Implicit.
Unset Printing Implicit Defensive.

Import GRing.Theory Num.Theory.
Local Open Scope ring_scope.

HB.instance Definition _ := hasDecEq.Build string String.eqb_spec.

(** ** Floating-point results *)

(** A float64 value up to rounding: a finite number, an infinity or NaN.
    The sign of a zero is not modelled: a zero divisor counts as [+0.0]. *)
Inductive float64 : Type :=
  | Fin of rat
  | PInf
  | NInf
  | NaN.

Definition float64_code (x : float64) : option rat + bool :=
  match x with
  | Fin q => inl (Some q)
  | NaN => inl None
  | PInf => inr true
  | NInf => inr false
  end.

Definition float64_decode (c : option rat + bool) : float64 :=
  match c with
  | inl (Some q) => Fin q
  | inl None => NaN
  | inr true => PInf
  | inr false => NInf
  end.

Lemma float64_codeK : cancel float64_code float64_decode.
Proof. by case. Qed.

HB.instance Definition _ := Equality.copy float64 (can_type float64_codeK).

Definition is_finite (x : float64) : bool :=
  if x is Fin _ then true else false.

(** pandas' [isna] on a float cell. *)
Definition isna (x : float64) : bool :=
  if x is NaN then true else false.

(** NumPy's [true_divide] on float64 scalars and arrays: dividing by zero
    does not raise, it yields NaN for [0/0] and a signed infinity
    otherwise. *)
Definition truediv (x y : float64) : float64 :=
  match x, y with
  | NaN, _ | _, NaN => NaN
  | Fin a, Fin b =>
      if b == 0 then (if a == 0 then NaN else if a < 0 then NInf else PInf)
      else Fin (a / b)
  | Fin _, (PInf | NInf) => Fin 0
  | PInf, Fin b => if b < 0 then NInf else PInf
  | NInf, Fin b => if b < 0 then PInf else NInf
  | (PInf | NInf), (PInf | NInf) => NaN
  end.

(** Float addition, used to add up a column of percentages. *)
Definition fadd (x y : float64) : float64 :=
  match x, y with
  | NaN, _ | _, NaN => NaN
  | Fin a, Fin b => Fin (a + b)
  | PInf, NInf | NInf, PInf => NaN
  | PInf, _ | _, PInf => PInf
  | NInf, _ | _, NInf => NInf
  end.

Definition fsum (s : seq float64) : float64 := foldr fadd (Fin 0) s.

(** Python's [/] on two [int]s (here the results of [len]): true division,
    raising [ZeroDivisionError] when the divisor is zero. *)
Variant exn : Type := ZeroDivisionError.

Definition int_truediv (a b : nat) : exn + float64 :=
  if b == 0%N then inl ZeroDivisionError else inr (Fin (a%:R / b%:R)).

(** ** The joined input frame *)

(** One row of [transit_mode] after the [pd.concat(..., axis=1)]: the
    category column of the first file and the two weight columns of the
    second, taken to be the only columns.  [None] is a missing value. *)
Record row : Type := Row {
  transit_mode : option string;
  unlinked_weight : option rat;
  linked_weight : option rat
}.

Definition row_code (r : row) :=
  (transit_mode r, unlinked_weight r, linked_weight r).

Definition row_decode (c : option string * option rat * option rat) : row :=
  let: (m, u, l) := c in Row m u l.

Lemma row_codeK : cancel row_code row_decode.
Proof. by case. Qed.

HB.instance Definition _ := Equality.copy row (can_type row_codeK).

Definition DataFrame : Type := seq row.

(** A Series: index labels with their values. *)
Definition Series (T : Type) : Type := seq (string * T).

(** ** pandas operations used by the notebook *)

(** [Series.sum()] on a float column: [skipna=True], [min_count=0].
    Missing entries are replaced by [0] and the column is added up. *)
Definition column_sum (col : seq (option rat)) : rat :=
  foldr (fun w acc => odflt 0 w + acc) 0 col.

(** [Series.sum()] on the result of a group-by (no missing entries). *)
Definition Series_sum (R : nmodType) (s : Series R) : R :=
  foldr (fun kv acc => kv.2 + acc) 0 s.

(** [DataFrame.dropna()]: keep the rows without any missing field. *)
Definition dropna (df : DataFrame) : DataFrame :=
  [seq r <- df | [&& transit_mode r, unlinked_weight r & linked_weight r]].

(** [groupby("transit_mode", observed=True)]: the default [dropna=True]
    leaves rows with a missing key out of every group, [observed=True]
    keeps only the labels that occur, and the default [sort=True] orders
    the group keys (here as strings; a categorical column would follow
    the order of its declared categories instead). *)
Definition group_keys (df : DataFrame) : seq string :=
  sort String.leb (undup (pmap transit_mode df)).

Definition get_group (df : DataFrame) (k : string) : DataFrame :=
  [seq r <- df | transit_mode r == Some k].

Definition groupby (df : DataFrame) : seq (string * DataFrame) :=
  [seq (k, get_group df k) | k <- group_keys df].

(** [GroupBy.size()]: the number of rows of each group. *)
Definition GroupBy_size (g : seq (string * DataFrame)) : Series nat :=
  [seq (kg.1, size kg.2) | kg <- g].

(** [GroupBy.<column>.sum()]: the column sum of each group. *)
Definition GroupBy_sum (col : row -> option rat)
    (g : seq (string * DataFrame)) : Series rat :=
  [seq (kg.1, column_sum [seq col r | r <- kg.2]) | kg <- g].

(** An integer Series seen as floats, and a Series divided by a scalar. *)
Definition astype_float (s : Series nat) : Series rat :=
  [seq (kv.1, kv.2%:R) | kv <- s].

Definition Series_div (s : Series rat) (d : rat) : Series float64 :=
  [seq (kv.1, truediv (Fin kv.2) (Fin d)) | kv <- s].

(** ** The aggregation cell *)

Definition unweighted (df : DataFrame) : Series nat :=
  GroupBy_size (groupby df).

Definition unlinked (df : DataFrame) : Series rat :=
  GroupBy_sum unlinked_weight (groupby df).

Definition linked (df : DataFrame) : Series rat :=
  GroupBy_sum linked_weight (groupby df).

Definition total_valid (df : DataFrame) : nat := size (dropna df).

Definition total (df : DataFrame) : nat := size df.

Definition unlinked_total (df : DataFrame) : rat :=
  column_sum [seq unlinked_weight r | r <- df].

Definition linked_total (df : DataFrame) : rat :=
  column_sum [seq linked_weight r | r <- df].

(** A row of the summary frame: its index label and the six columns
    [("unweighted","count")], [("unweighted","percent")],
    [("unlinked_weight","count")], ... of the source. *)
Record summary_row : Type := SummaryRow {
  label : string;
  unweighted_count : nat;
  unweighted_percent : float64;
  unlinked_weight_count : rat;
  unlinked_weight_percent : float64;
  linked_weight_count : rat;
  linked_weight_percent : float64
}.

(** [pd.DataFrame({...})] on six Series that carry the same index: the
    label alignment is the identity and the rows are put together
    position by position. *)
Fixpoint DataFrame_of_columns (c1 : Series nat) (c2 : Series float64)
    (c3 : Series rat) (c4 : Series float64) (c5 : Series rat)
    (c6 : Series float64) : seq summary_row :=
  match c1, c2, c3, c4, c5, c6 with
  | (k, n) :: c1', (_, p) :: c2', (_, u) :: c3', (_, pu) :: c4',
    (_, l) :: c5', (_, pl) :: c6' =>
      SummaryRow k n p u pu l pl
        :: DataFrame_of_columns c1' c2' c3' c4' c5' c6'
  | _, _, _, _, _, _ => [::]
  end.

Definition summary (df : DataFrame) : seq summary_row :=
  DataFrame_of_columns
    (unweighted df)
    (Series_div (astype_float (unweighted df))
                (Series_sum (unweighted df))%:R)
    (unlinked df)
    (Series_div (unlinked df) (Series_sum (unlinked df)))
    (linked df)
    (Series_div (linked df) (Series_sum (linked df))).

(** ** The table cell *)

(** The two literal dicts handed to [pd.DataFrame([...])].  A percent key
    that a dict does not mention is [None]. *)
Record totals_dict : Type := TotalsDict {
  age_category : string;
  dict_unweighted_count : nat;
  dict_unweighted_percent : option float64;
  dict_unlinked_weight_count : rat;
  dict_unlinked_weight_percent : option float64;
  dict_linked_weight_count : rat;
  dict_linked_weight_percent : option float64
}.

(** The "Total valid" dict.  [total_valid / total] divides two Python
    ints and can raise; the two weight ratios divide NumPy floats. *)
Definition total_valid_dict (df : DataFrame) : exn + totals_dict :=
  match int_truediv (total_valid df) (total df) with
  | inl e => inl e
  | inr p =>
      inr (TotalsDict "Total valid"
             (total_valid df) (Some p)
             (Series_sum (unlinked df))
             (Some (truediv (Fin (Series_sum (unlinked df)))
                            (Fin (unlinked_total df))))
             (Series_sum (linked df))
             (Some (truediv (Fin (Series_sum (linked df)))
                            (Fin (linked_total df)))))
  end.

(** The "Total" dict: three count keys and no percent key. *)
Definition total_dict (df : DataFrame) : totals_dict :=
  TotalsDict "Total"
    (total df) None
    (unlinked_total df) None
    (linked_total df) None.

(** [pd.DataFrame(records).set_index("age_category")]: one row per dict,
    NaN in every column that the dict does not mention, and the
    ["age_category"] entry as the index label. *)
Definition DataFrame_of_records (ds : seq totals_dict) : seq summary_row :=
  [seq SummaryRow (age_category d)
         (dict_unweighted_count d)
         (odflt NaN (dict_unweighted_percent d))
         (dict_unlinked_weight_count d)
         (odflt NaN (dict_unlinked_weight_percent d))
         (dict_linked_weight_count d)
         (odflt NaN (dict_linked_weight_percent d))
  | d <- ds].

(** [pd.concat([summary, totals])], the frame that is rendered.  The dicts
    are built before anything else happens, so a raising division leaves
    no frame at all. *)
Definition concat_totals (df : DataFrame) : exn + seq summary_row :=
  match total_valid_dict df with
  | inl e => inl e
  | inr tv =>
      inr (summary df ++ DataFrame_of_records [:: tv; total_dict df])
  end.

(** [DataFrame.to_html(formatters=...)], reduced to the text of its
    cells.  A column formatter is applied to the cells that are not
    missing; a missing cell is rendered as [na_rep], whose default in
    [to_html] is the text NaN. *)
Definition na_rep : string := "NaN".

Definition format_cell (formatter : float64 -> string) (v : float64)
    : string :=
  if isna v then na_rep else formatter v.

Record html_row : Type := HtmlRow {
  th : string;
  td : seq string
}.

Definition to_html (count_format percent_format : float64 -> string)
    (t : seq summary_row) : seq html_row :=
  [seq HtmlRow (label r)
         [:: format_cell count_format (Fin (unweighted_count r)%:R);
             format_cell percent_format (unweighted_percent r);
             format_cell count_format (Fin (unlinked_weight_count r));
             format_cell percent_format (unlinked_weight_percent r);
             format_cell count_format (Fin (linked_weight_count r));
             format_cell percent_format (linked_weight_percent r)]
  | r <- t].

(** [table]: the rendered table.  The two formatters stand for Python's
    ["{:,.0f}".format] and ["{:,.2%}".format]. *)
Definition table (count_format percent_format : float64 -> string)
    (df : DataFrame) : exn + seq html_row :=
  match concat_totals df with
  | inl e => inl e
  | inr t => inr (to_html count_format percent_format t)
  end.

(** ** The chart cell *)

Record Bar : Type := MkBar {
  x : seq string;
  y : seq float64;
  name : string
}.

Record Layout : Type := MkLayout {
  title_text : string;
  yaxis_range : rat * rat;
  yaxis_tickformat : string;
  xaxis_title : string;
  yaxis_title : string
}.

Record Figure : Type := MkFigure {
  data : seq Bar;
  layout : option Layout
}.

Definition go_Figure : Figure := MkFigure [::] None.

Definition add_trace (f : Figure) (b : Bar) : Figure :=
  MkFigure (rcons (data f) b) (layout f).

Definition update_layout (f : Figure) (l : Layout) : Figure :=
  MkFigure (data f) (Some l).

Definition figure (df : DataFrame) : Figure :=
  let f0 := go_Figure in
  let f1 := add_trace f0
    (MkBar [seq label r | r <- summary df]
           [seq unweighted_percent r | r <- summary df]
           "Unweighted") in
  let f2 := add_trace f1
    (MkBar [seq label r | r <- summary df]
           [seq unlinked_weight_percent r | r <- summary df]
           "Weighted (Unlinked)") in
  let f3 := add_trace f2
    (MkBar [seq label r | r <- summary df]
           [seq linked_weight_percent r | r <- summary df]
           "Weighted (Linked)") in
  update_layout f3
    (MkLayout "Unweighted and Weighted Responses by Transit Mode"
              (0, 1) ",.0%" "Age" "Percent").

(** ** The worked example of the specification

    Four rows with categories Bus, Bus, Rail and a missing one, and both
    weights 1, 1, 2, 5. *)
Definition example_rows : DataFrame :=
  [:: Row (Some "Bus"%string) (Some 1) (Some 1);
      Row (Some "Bus"%string) (Some 1) (Some 1);
      Row (Some "Rail"%string) (Some 2%:R) (Some 2%:R);
      Row None (Some 5%:R) (Some 5%:R)].

(** ** Equality tests on the result types *)

Definition exn_code (e : exn) : unit := tt.
Definition exn_decode (u : unit) : exn := ZeroDivisionError.
Lemma exn_codeK : cancel exn_code exn_decode.
Proof. by case. Qed.
HB.instance Definition _ := Equality.copy exn (can_type exn_codeK).

Definition summary_row_code (r : summary_row) :=
  (label r, unweighted_count r, unweighted_percent r,
   unlinked_weight_count r, unlinked_weight_percent r,
   linked_weight_count r, linked_weight_percent r).

Definition summary_row_decode
    (c : string * nat * float64 * rat * float64 * rat * float64)
    : summary_row :=
  let: (k, n, p, u, pu, l, pl) := c in SummaryRow k n p u pu l pl.

Lemma summary_row_codeK : cancel summary_row_code summary_row_decode.
Proof. by case. Qed.

HB.instance Definition _ :=
  Equality.copy summary_row (can_type summary_row_codeK).

Definition html_row_code (r : html_row) := (th r, td r).
Definition html_row_decode (c : string * seq string) : html_row :=
  HtmlRow c.1 c.2.
Lemma html_row_codeK : cancel html_row_code html_row_decode.
Proof. by case. Qed.
HB.instance Definition _ := Equality.copy html_row (can_type html_row_codeK).

(** ** Reading the definitions as sums and counts *)

(** The rows with a category. *)
Definition has_category (r : row) : bool := transit_mode r.

(** The rows of one category. *)
Definition in_category (k : string) (r : row) : bool :=
  transit_mode r == Some k.

(** The sum of a list of rationals, and the sum of the values of a weight
    column that are present. *)
Definition sumq (s : seq rat) : rat := foldr +%R 0 s.

Definition present_sum (w : row -> option rat) (rows : seq row) : rat :=
  sumq (pmap w rows).

(** The summary row of one category, written out. *)
Definition category_row (df : DataFrame) (k : string) : summary_row :=
  SummaryRow k
    (size (get_group df k))
    (truediv (Fin (size (get_group df k))%:R)
             (Fin (Series_sum (unweighted df))%:R))
    (column_sum [seq unlinked_weight r | r <- get_group df k])
    (truediv (Fin (column_sum [seq unlinked_weight r | r <- get_group df k]))
             (Fin (Series_sum (unlinked df))))
    (column_sum [seq linked_weight r | r <- get_group df k])
    (truediv (Fin (column_sum [seq linked_weight r | r <- get_group df k]))
             (Fin (Series_sum (linked df)))).

(** The two appended rows, written out for a frame with at least one
    row. *)
Definition total_valid_row (df : DataFrame) : summary_row :=
  SummaryRow "Total valid"
    (total_valid df)
    (Fin ((total_valid df)%:R / (total df)%:R))
    (Series_sum (unlinked df))
    (truediv (Fin (Series_sum (unlinked df))) (Fin (unlinked_total df)))
    (Series_sum (linked df))
    (truediv (Fin (Series_sum (linked df))) (Fin (linked_total df))).

Definition total_row (df : DataFrame) : summary_row :=
  SummaryRow "Total"
    (total df) NaN (unlinked_total df) NaN (linked_total df) NaN.

(** A row set whose weights add up to zero. *)
Definition zero_weight_rows : DataFrame :=
  [:: Row (Some "Bus"%string) (Some 0) None].

(** A row set on which a row has a category and no unlinked weight. *)
Definition missing_weight_rows : DataFrame :=
  [:: Row (Some "Bus"%string) None (Some 1)].

(** A weight column without negative entries. *)
Definition nonneg_weights (w : row -> option rat) (df : DataFrame) : bool :=
  all (fun r => 0 <= odflt 0 (w r)) df.

(** The rendered "Total" row: the three counts go through the count
    formatter, the three missing percentages are the [na_rep] text. *)
Definition total_html_row (count_format : float64 -> string)
    (df : DataFrame) : html_row :=
  HtmlRow "Total"
    [:: count_format (Fin (total df)%:R); "NaN"%string;
        count_format (Fin (unlinked_total df)); "NaN"%string;
        count_format (Fin (linked_total df)); "NaN"%string].

(** The first row of the frame that the pipeline produces on the
    example. *)
Definition example_bus_row : summary_row :=
  SummaryRow "Bus" 2 (Fin (2%:R / 3%:R))
    2%:R (Fin (2%:R / 4%:R)) 2%:R (Fin (2%:R / 4%:R)).

(** ** The data cell *)

(** The two files, each with the default index [0 .. n-1]: the category
    column of [transit_mode.parquet] and the two weight columns of
    [weights.parquet]. *)
Definition modes_file : Type := seq (option string).
Definition weights_file : Type := seq (option rat * option rat).

(** [pd.concat([modes, weights], axis=1)]: the default [join="outer"]
    keeps every index label of either file, so the result has as many
    rows as the longer file and the columns of the shorter one hold a
    missing value past its end. *)
Definition concat_axis1 (modes : modes_file) (weights : weights_file)
    : DataFrame :=
  [seq Row (nth None modes i)
           (nth (None, None) weights i).1
           (nth (None, None) weights i).2
  | i <- iota 0 (maxn (size modes) (size weights))].

(** A row without any missing field, as [dropna] keeps it. *)
Definition complete (r : row) : bool :=
  [&& transit_mode r, unlinked_weight r & linked_weight r].

(** The label and the two unweighted columns of a frame row. *)
Definition count_columns (sr : summary_row) : string * nat * float64 :=
  (label sr, unweighted_count sr, unweighted_percent sr).

(** * Properties of the embedding *)

Arguments truediv : simpl never.

Section BasicFacts.

Lemma column_sumE (col : seq (option rat)) :
  column_sum col = \sum_(w <- col) odflt 0 w.
Proof.
  by elim: col => [|w col IH]; rewrite ?big_nil // big_cons /= IH.
Qed.

Lemma Series_sumE (R : nmodType) (s : Series R) :
  Series_sum s = \sum_(kv <- s) kv.2.
Proof.
  by elim: s => [|kv s IH]; rewrite ?big_nil // big_cons /= IH.
Qed.

Lemma sumqE (s : seq rat) : sumq s = \sum_(q <- s) q.
Proof. exact: foldrE. Qed.

Lemma column_sum_present (w : row -> option rat) (rows : seq row) :
  column_sum [seq w r | r <- rows] = present_sum w rows.
Proof.
  rewrite column_sumE /present_sum sumqE big_map big_pmap.
  by apply: eq_bigr => r _; case: (w r).
Qed.

Lemma fsum_Fin (qs : seq rat) :
  fsum [seq Fin q | q <- qs] = Fin (\sum_(q <- qs) q).
Proof.
  by elim: qs => [|q qs IH]; rewrite ?big_nil // big_cons /= IH.
Qed.

Lemma truediv_Fin (a b : rat) :
  b != 0 -> truediv (Fin a) (Fin b) = Fin (a / b).
Proof. by rewrite /truediv => /negPf ->. Qed.

Lemma truediv_zero (a : rat) :
  truediv (Fin a) (Fin 0)
  = if a == 0 then NaN else if a < 0 then NInf else PInf.
Proof. by rewrite /truediv eqxx. Qed.

Lemma group_keys_uniq (df : DataFrame) : uniq (group_keys df).
Proof. by rewrite sort_uniq undup_uniq. Qed.

Lemma mem_group_keys (df : DataFrame) (k : string) :
  (k \in group_keys df) = (Some k \in [seq transit_mode r | r <- df]).
Proof. by rewrite mem_sort mem_undup mem_pmap. Qed.

Lemma big_eq_uniq (R : Type) (idx : R) (op : Monoid.law idx)
    (s : seq string) (c : string) (v : R) :
  uniq s -> c \in s -> \big[op/idx]_(k <- s | k == c) v = v.
Proof.
  elim: s => [|k s IH] //=; rewrite inE big_cons => /andP [Hk Hs].
  have [E|Hne] /= := eqVneq k c.
    move=> _; rewrite big_seq_cond big_pred0 ?Monoid.mulm1 // => j.
    by apply/negP => /andP [Hj /eqP Ej]; rewrite Ej -E (negPf Hk) in Hj.
  exact: IH.
Qed.

Lemma big_groups (R : Type) (idx : R) (op : Monoid.com_law idx)
    (df : DataFrame) (F : row -> R) :
  \big[op/idx]_(k <- group_keys df) \big[op/idx]_(r <- get_group df k) F r
  = \big[op/idx]_(r <- df | has_category r) F r.
Proof.
  have Hp : perm_eq (group_keys df) (undup (pmap transit_mode df)).
    by rewrite /group_keys perm_sort.
  rewrite (perm_big _ Hp) /=.
  under eq_bigr => k _ do rewrite big_filter.
  rewrite (exchange_big_dep has_category) /=;
    first by move=> k r _ /eqP E; rewrite /has_category E.
  rewrite big_seq_cond [RHS]big_seq_cond.
  apply: eq_bigr => r /andP [Hr].
  rewrite /has_category; case E: (transit_mode r) => [c|] // _.
  rewrite (eq_bigl (fun k => k == c));
    first by move=> k; rewrite /= eq_sym; apply/eqP/eqP => [[]|->].
  apply: big_eq_uniq; first exact: undup_uniq.
  by rewrite mem_undup mem_pmap -E map_f.
Qed.
End BasicFacts.

Section SummaryFacts.

Variable df : DataFrame.

Lemma DataFrame_of_columns_map (I : Type) (ks : seq I)
    (g1 : I -> string * nat) (g2 : I -> string * float64)
    (g3 : I -> string * rat) (g4 : I -> string * float64)
    (g5 : I -> string * rat) (g6 : I -> string * float64) :
  DataFrame_of_columns [seq g1 k | k <- ks] [seq g2 k | k <- ks]
    [seq g3 k | k <- ks] [seq g4 k | k <- ks]
    [seq g5 k | k <- ks] [seq g6 k | k <- ks]
  = [seq SummaryRow (g1 k).1 (g1 k).2 (g2 k).2 (g3 k).2 (g4 k).2
           (g5 k).2 (g6 k).2
    | k <- ks].
Proof.
  elim: ks => [|k ks IH] //=; rewrite IH.
  by case: (g1 k) (g2 k) (g3 k) (g4 k) (g5 k) (g6 k)
    => [? ?] [? ?] [? ?] [? ?] [? ?] [? ?].
Qed.

Lemma unweightedE :
  unweighted df = [seq (k, size (get_group df k)) | k <- group_keys df].
Proof. by rewrite /unweighted /GroupBy_size /groupby -map_comp. Qed.

Lemma unlinkedE :
  unlinked df =
  [seq (k, column_sum [seq unlinked_weight r | r <- get_group df k])
  | k <- group_keys df].
Proof. by rewrite /unlinked /GroupBy_sum /groupby -map_comp. Qed.

Lemma linkedE :
  linked df =
  [seq (k, column_sum [seq linked_weight r | r <- get_group df k])
  | k <- group_keys df].
Proof. by rewrite /linked /GroupBy_sum /groupby -map_comp. Qed.

Lemma summaryE : summary df = [seq category_row df k | k <- group_keys df].
Proof.
  rewrite /summary /category_row.
  move: (Series_sum (unweighted df)) (Series_sum (unlinked df))
    (Series_sum (linked df)) => d1 d2 d3.
  rewrite /Series_div /astype_float /unweighted /unlinked /linked.
  rewrite /GroupBy_size /GroupBy_sum /groupby -!map_comp.
  by rewrite DataFrame_of_columns_map.
Qed.

(** [unweighted.sum()] is the number of rows with a category. *)
Lemma unweighted_sumE : Series_sum (unweighted df) = count has_category df.
Proof.
  rewrite Series_sumE unweightedE big_map /=.
  under eq_bigr => k _ do rewrite -sum1_size.
  by rewrite big_groups sum1_count.
Qed.

(** [unlinked.sum()] and [linked.sum()] add the weights of those rows. *)
Lemma group_sums (w : row -> option rat) :
  \sum_(k <- group_keys df) column_sum [seq w r | r <- get_group df k]
  = column_sum [seq w r | r <- df & has_category r].
Proof.
  under eq_bigr => k _ do rewrite column_sumE big_map.
  by rewrite big_groups column_sumE big_map big_filter.
Qed.

Lemma unlinked_sumE :
  Series_sum (unlinked df) =
  column_sum [seq unlinked_weight r | r <- df & has_category r].
Proof. by rewrite Series_sumE unlinkedE big_map /= group_sums. Qed.

Lemma linked_sumE :
  Series_sum (linked df) =
  column_sum [seq linked_weight r | r <- df & has_category r].
Proof. by rewrite Series_sumE linkedE big_map /= group_sums. Qed.

End SummaryFacts.

Section TableFacts.

Variable df : DataFrame.

Lemma int_truediv_nonzero (a b : nat) :
  b != 0%N -> int_truediv a b = inr (Fin (a%:R / b%:R)).
Proof. by rewrite /int_truediv => /negPf ->. Qed.

Lemma total_eq0 : (total df == 0%N) = (df == [::]).
Proof. by rewrite /total size_eq0. Qed.

(** On any other frame the table is the summary followed by the two
    total rows. *)
Lemma concat_totalsE :
  df != [::] ->
  concat_totals df = inr (summary df ++ [:: total_valid_row df; total_row df]).
Proof.
  move=> Hdf; rewrite /concat_totals /total_valid_dict.
  by rewrite int_truediv_nonzero ?total_eq0.
Qed.

End TableFacts.

Section TotalsFacts.

Variable df : DataFrame.

Lemma sum_unweighted_count :
  sumn [seq unweighted_count sr | sr <- summary df]
  = Series_sum (unweighted df).
Proof. by rewrite sumnE summaryE Series_sumE unweightedE !big_map. Qed.

Lemma sum_unlinked_count :
  sumq [seq unlinked_weight_count sr | sr <- summary df]
  = Series_sum (unlinked df).
Proof. by rewrite sumqE summaryE Series_sumE unlinkedE !big_map. Qed.

Lemma sum_linked_count :
  sumq [seq linked_weight_count sr | sr <- summary df]
  = Series_sum (linked df).
Proof. by rewrite sumqE summaryE Series_sumE linkedE !big_map. Qed.

Lemma count_predI_eq (T : Type) (a b : pred T) (s : seq T) :
  (count (predI a b) s == count a s) = all (fun x => a x ==> b x) s.
Proof.
  have Hle s' : (count (predI a b) s' <= count a s')%N.
    by apply: sub_count => x /andP [].
  elim: s => [|x s IH] //=.
  case: (a x) => /=; last by rewrite !add0n.
  case: (b x) => /=; first by rewrite eqn_add2l.
  by rewrite add0n add1n ltn_eqF // ltnS.
Qed.

End TotalsFacts.

Section CategoryFacts.

Variable df : DataFrame.

Lemma mem_summary (sr : summary_row) :
  sr \in summary df ->
  exists2 k, k \in group_keys df & sr = category_row df k.
Proof. by rewrite summaryE => /mapP [k Hk ->]; exists k. Qed.

Lemma label_summary : [seq label sr | sr <- summary df] = group_keys df.
Proof. by rewrite summaryE -map_comp map_id_in. Qed.

Lemma group_key_has_category (k : string) :
  k \in group_keys df -> (0 < count has_category df)%N.
Proof.
  rewrite mem_group_keys -has_count => /mapP [r Hr E].
  by apply/hasP; exists r => //; rewrite /has_category -E.
Qed.

Lemma get_group_size (k : string) :
  size (get_group df k) = count (fun r => transit_mode r == Some k) df.
Proof. by rewrite /get_group size_filter. Qed.

End CategoryFacts.

Section PercentColumns.

Lemma fsum_ratio (I : Type) (ks : seq I) (f : I -> rat) (d : rat) :
  d != 0 ->
  fsum [seq truediv (Fin (f k)) (Fin d) | k <- ks]
  = Fin ((\sum_(k <- ks) f k) / d).
Proof.
  move=> Hd.
  have -> : [seq truediv (Fin (f k)) (Fin d) | k <- ks]
            = [seq Fin q | q <- [seq f k / d | k <- ks]].
    by rewrite -map_comp; apply: eq_map => k /=; rewrite truediv_Fin.
  by rewrite fsum_Fin big_map mulr_suml.
Qed.

End PercentColumns.

Section HtmlFacts.

Variables count_format percent_format : float64 -> string.
Variable df : DataFrame.

Lemma tableE :
  df != [::] ->
  table count_format percent_format df
  = inr (rcons (to_html count_format percent_format
                  (rcons (summary df) (total_valid_row df)))
               (total_html_row count_format df)).
Proof.
  move=> Hdf; rewrite /table concat_totalsE //.
  by rewrite /to_html -!cats1 !map_cat -catA.
Qed.

End HtmlFacts.

Section ZeroDenominators.

Variable df : DataFrame.

Lemma truediv_zero_not_finite (a : rat) :
  ~~ is_finite (truediv (Fin a) (Fin 0)).
Proof. by rewrite truediv_zero; case: ifP => // _; case: ifP. Qed.

(** With no negative weight, a zero total over some rows forces a zero
    total over any part of them. *)
Lemma column_sum_filter_eq0 (w : row -> option rat) (p : pred row)
    (rows : seq row) :
  nonneg_weights w rows ->
  column_sum [seq w r | r <- rows] = 0 ->
  column_sum [seq w r | r <- rows & p r] = 0.
Proof.
  move=> /allP Hw /eqP; rewrite !column_sumE !big_map big_filter.
  rewrite big_seq psumr_eq0; first by move=> r /Hw.
  move=> /allP H0; rewrite big_seq_cond big1 // => r /andP [Hr _].
  by have := H0 r Hr; rewrite Hr => /eqP.
Qed.

Lemma group_sum_eq0 (w : row -> option rat) (k : string) :
  nonneg_weights w df ->
  column_sum [seq w r | r <- df & has_category r] = 0 ->
  column_sum [seq w r | r <- get_group df k] = 0.
Proof.
  move=> Hw H0.
  have -> : get_group df k
            = [seq r <- [seq r <- df | has_category r] | in_category k r].
    rewrite -filter_predI; apply: eq_filter => r /=.
    rewrite /in_category /has_category.
    by case: (transit_mode r) => [c|]; rewrite ?andbT ?andbF.
  apply: column_sum_filter_eq0 => //.
  by apply/allP => r; rewrite mem_filter => /andP [_ /(allP Hw)].
Qed.

End ZeroDenominators.

(** The table has two more rows than a trace has bars. *)
Lemma table_size (df : DataFrame) (t : seq summary_row) :
  concat_totals df = inr t -> size t = (size (group_keys df)).+2.
Proof.
  case: (eqVneq df [::]) => [->|Hdf] //; rewrite concat_totalsE // => [[<-]].
  by rewrite size_cat summaryE size_map addn2.
Qed.

(** With weights of both signs a zero denominator gives signed
    infinities rather than NaN. *)
Example negative_weights_give_infinity :
  [seq unlinked_weight_percent sr
  | sr <- summary [:: Row (Some "Bus"%string) (Some 1) None;
                      Row (Some "Rail"%string) (Some (-1)) None]]
  = [:: PInf; NInf].
Proof. by apply/eqP; vm_compute. Qed.

(** * The claims *)

(** C1, as stated, fails on the worked example: the rows with a category
    weigh 4 out of 9, so the "Total valid" row shows 4/9 in both weight
    percent columns, not 100%. *)
Lemma total_valid_weight_percent_example :
  exists tv tot,
    [/\ concat_totals example_rows = inr (summary example_rows ++ [:: tv; tot]),
        label tv = "Total valid"%string,
        unlinked_weight_percent tv = Fin (4%:R / 9%:R),
        linked_weight_percent tv = Fin (4%:R / 9%:R)
      & Fin (4%:R / 9%:R) != Fin 1].
Proof.
  exists (total_valid_row example_rows), (total_row example_rows).
  by split=> //; apply/eqP; vm_compute.
Qed.

(** C1, amended: on every non-empty row set the "Total valid" row's two
    weight percentages are the sum of the per-category weight sums divided
    by the sum of that weight over all rows, rows without a category
    included, and not over the rows with a category. *)
Theorem total_valid_weight_percent (df : DataFrame) :
  df != [::] ->
  exists tv tot,
    [/\ concat_totals df = inr (summary df ++ [:: tv; tot]),
        label tv = "Total valid"%string,
        unlinked_weight_percent tv =
          truediv (Fin (sumq [seq unlinked_weight_count sr | sr <- summary df]))
                  (Fin (present_sum unlinked_weight df))
      & linked_weight_percent tv =
          truediv (Fin (sumq [seq linked_weight_count sr | sr <- summary df]))
                  (Fin (present_sum linked_weight df))].
Proof.
  move=> Hdf; exists (total_valid_row df), (total_row df).
  split; rewrite ?concat_totalsE //=.
  - by rewrite sum_unlinked_count /unlinked_total !column_sum_present.
  - by rewrite sum_linked_count /linked_total !column_sum_present.
Qed.

Lemma total_valid_weight_percent_witness :
  example_rows != [::] /\
  exists tv tot,
    [/\ concat_totals example_rows = inr (summary example_rows ++ [:: tv; tot]),
        label tv = "Total valid"%string,
        unlinked_weight_percent tv =
          truediv (Fin (sumq [seq unlinked_weight_count sr
                                 | sr <- summary example_rows]))
                  (Fin (present_sum unlinked_weight example_rows))
      & linked_weight_percent tv =
          truediv (Fin (sumq [seq linked_weight_count sr
                                 | sr <- summary example_rows]))
                  (Fin (present_sum linked_weight example_rows))].
Proof.
  split; first by vm_compute.
  apply: (total_valid_weight_percent (df := example_rows)).
  by vm_compute.
Defined.

(** C2, as stated, fails when a row has a category and a missing weight:
    the per-category counts add up to 1 and the "Total valid" row
    reports 0. *)
Lemma counts_sum_missing_weight :
  exists tv tot,
    [/\ concat_totals missing_weight_rows
          = inr (summary missing_weight_rows ++ [:: tv; tot]),
        label tv = "Total valid"%string,
        sumn [seq unweighted_count sr | sr <- summary missing_weight_rows] = 1%N
      & unweighted_count tv = 0%N].
Proof.
  exists (total_valid_row missing_weight_rows), (total_row missing_weight_rows).
  by split.
Qed.

(** C2, amended: on every non-empty row set the per-category counts add up
    to the number of rows with a category; the "Total valid" row's count
    is never larger, and the two agree exactly when every row with a
    category has both weights present. *)
Theorem counts_sum_total_valid (df : DataFrame) :
  df != [::] ->
  exists tv tot,
    [/\ concat_totals df = inr (summary df ++ [:: tv; tot]),
        label tv = "Total valid"%string,
        sumn [seq unweighted_count sr | sr <- summary df]
          = count has_category df,
        (unweighted_count tv
           <= sumn [seq unweighted_count sr | sr <- summary df])%N
      & (unweighted_count tv
           == sumn [seq unweighted_count sr | sr <- summary df])
        = all (fun r => has_category r
                        ==> (unlinked_weight r && linked_weight r)) df].
Proof.
  move=> Hdf; exists (total_valid_row df), (total_row df).
  have Hv : total_valid df =
      count (predI has_category
               (fun r => unlinked_weight r && linked_weight r)) df.
    by rewrite /total_valid /dropna size_filter; apply: eq_count => r.
  split; rewrite ?concat_totalsE //= ?sum_unweighted_count ?unweighted_sumE //.
  - by rewrite Hv; apply: sub_count => r /andP [].
  - by rewrite Hv count_predI_eq.
Qed.

Lemma counts_sum_total_valid_witness :
  example_rows != [::] /\
  exists tv tot,
    [/\ concat_totals example_rows = inr (summary example_rows ++ [:: tv; tot]),
        label tv = "Total valid"%string,
        sumn [seq unweighted_count sr | sr <- summary example_rows]
          = count has_category example_rows,
        (unweighted_count tv
           <= sumn [seq unweighted_count sr | sr <- summary example_rows])%N
      & (unweighted_count tv
           == sumn [seq unweighted_count sr | sr <- summary example_rows])
        = all (fun r => has_category r
                        ==> (unlinked_weight r && linked_weight r))
              example_rows].
Proof.
  split; first by vm_compute.
  apply: (counts_sum_total_valid (df := example_rows)).
  by vm_compute.
Defined.

(** C3: in the row of a category, the unweighted percentage is the
    category's row count divided by the number of rows that have a
    category (a positive number, and not the number of all rows), and each
    weight percentage is the category's weight sum divided by the sum of
    that weight over the rows that have a category. *)
Theorem category_percent (df : DataFrame) (sr : summary_row) :
  sr \in summary df ->
  [/\ unweighted_count sr = count (in_category (label sr)) df
      /\ (0 < count has_category df)%N,
      unlinked_weight_count sr
        = present_sum unlinked_weight [seq r <- df | in_category (label sr) r]
      /\ linked_weight_count sr
        = present_sum linked_weight [seq r <- df | in_category (label sr) r],
      unweighted_percent sr
        = Fin ((unweighted_count sr)%:R / (count has_category df)%:R),
      unlinked_weight_percent sr
        = truediv (Fin (unlinked_weight_count sr))
            (Fin (present_sum unlinked_weight [seq r <- df | has_category r]))
    & linked_weight_percent sr
        = truediv (Fin (linked_weight_count sr))
            (Fin (present_sum linked_weight [seq r <- df | has_category r]))].
Proof.
  move=> /mem_summary [k Hk ->] /=.
  have Hpos := group_key_has_category Hk.
  split; rewrite ?get_group_size ?column_sum_present //.
  - by rewrite unweighted_sumE truediv_Fin // pnatr_eq0 -lt0n.
  - by rewrite unlinked_sumE column_sum_present.
  - by rewrite linked_sumE column_sum_present.
Qed.

Lemma category_percent_witness :
  example_bus_row \in summary example_rows /\
  unweighted_percent example_bus_row
    = Fin ((unweighted_count example_bus_row)%:R
           / (count has_category example_rows)%:R).
Proof.
  have Hin : example_bus_row \in summary example_rows by vm_compute.
  split; first exact: Hin.
  by have [_ _ -> _ _] := category_percent Hin.
Defined.

(** C4, as stated, fails on the worked example whatever the two
    formatters are: the three percent cells of the rendered "Total" row
    are not empty. *)
Lemma total_percent_cells_not_empty :
  ~ exists count_format percent_format : float64 -> string,
      forall (body : seq html_row) (tr : html_row),
        table count_format percent_format example_rows = inr (rcons body tr) ->
        [:: nth EmptyString (td tr) 1; nth EmptyString (td tr) 3;
            nth EmptyString (td tr) 5]
        = [:: EmptyString; EmptyString; EmptyString].
Proof.
  move=> [cf [pf H]].
  have Hne : example_rows != [::] by [].
  by have := H _ _ (tableE cf pf Hne).
Qed.

(** C4, amended: on every non-empty row set the "Total" dict has no
    percent key, the last row of the frame is the "Total" row with a
    missing value in its three percent columns, and [to_html] renders
    these three cells as the text NaN, its default [na_rep], without
    calling the percent formatter: neither an empty cell nor a zero. *)
Theorem total_row_percent_cells
    (count_format percent_format : float64 -> string) (df : DataFrame) :
  df != [::] ->
  [/\ [/\ dict_unweighted_percent (total_dict df) = None,
          dict_unlinked_weight_percent (total_dict df) = None
        & dict_linked_weight_percent (total_dict df) = None],
      exists body tot,
        [/\ concat_totals df = inr (rcons body tot),
            label tot = "Total"%string,
            unweighted_percent tot = NaN,
            unlinked_weight_percent tot = NaN
          & linked_weight_percent tot = NaN]
    & exists hbody,
        table count_format percent_format df
        = inr (rcons hbody
                 (HtmlRow "Total"
                    [:: count_format (Fin (total df)%:R); "NaN"%string;
                        count_format (Fin (unlinked_total df)); "NaN"%string;
                        count_format (Fin (linked_total df)); "NaN"%string]))].
Proof.
  move=> Hdf; split=> //.
  - exists (rcons (summary df) (total_valid_row df)), (total_row df).
    by split=> //; rewrite concat_totalsE // -!cats1 -catA.
  - by eexists; rewrite tableE.
Qed.

Lemma total_row_percent_cells_witness :
  example_rows != [::] /\
  exists hbody,
    table (fun _ => "n"%string) (fun _ => "p"%string) example_rows
    = inr (rcons hbody
             (HtmlRow "Total"
                [:: "n"%string; "NaN"%string; "n"%string; "NaN"%string;
                    "n"%string; "NaN"%string])).
Proof.
  have Hne : example_rows != [::] by vm_compute.
  split=> //.
  by case: (total_row_percent_cells (fun _ => "n"%string)
              (fun _ => "p"%string) Hne).
Defined.

(** C5, as stated, fails on the empty row set: [total_valid / total]
    divides two Python ints and raises [ZeroDivisionError], so no table is
    produced. *)
Lemma aggregation_raises_on_empty :
  total [::] = 0%N
  /\ total_valid_dict [::] = inl ZeroDivisionError
  /\ concat_totals [::] = inl ZeroDivisionError.
Proof. by []. Qed.

(** C5, amended: on every non-empty row set the aggregation does not
    raise.  The unweighted per-category denominator is zero only when
    there is no per-category row.  A weight percentage whose denominator
    is zero is never a finite number, hence never zero: it is NaN or a
    signed infinity, and it is NaN whenever the weights of that series
    are not negative. *)
Theorem zero_denominator_percent (df : DataFrame) :
  df != [::] ->
  exists tv tot,
    [/\ concat_totals df = inr (summary df ++ [:: tv; tot])
        /\ label tv = "Total valid"%string,
        Series_sum (unweighted df) = 0%N -> summary df = [::],
        (Series_sum (unlinked df) = 0 ->
           all (fun sr => ~~ is_finite (unlinked_weight_percent sr))
               (summary df))
        /\ (Series_sum (linked df) = 0 ->
              all (fun sr => ~~ is_finite (linked_weight_percent sr))
                  (summary df)),
        (unlinked_total df = 0 -> ~~ is_finite (unlinked_weight_percent tv))
        /\ (linked_total df = 0 -> ~~ is_finite (linked_weight_percent tv))
      & (nonneg_weights unlinked_weight df ->
           (Series_sum (unlinked df) = 0 ->
              all (fun sr => unlinked_weight_percent sr == NaN) (summary df))
           /\ (unlinked_total df = 0 -> unlinked_weight_percent tv = NaN))
        /\ (nonneg_weights linked_weight df ->
              (Series_sum (linked df) = 0 ->
                 all (fun sr => linked_weight_percent sr == NaN) (summary df))
              /\ (linked_total df = 0 -> linked_weight_percent tv = NaN))].
Proof.
  move=> Hdf; exists (total_valid_row df), (total_row df).
  split; first by rewrite concat_totalsE.
  - move=> H0; rewrite summaryE.
    case E: (group_keys df) => [|k ks] //.
    have /group_key_has_category : k \in group_keys df by rewrite E inE eqxx.
    by rewrite -unweighted_sumE H0.
  - split=> H0; apply/allP => sr /mem_summary [k _ ->] /=;
      by rewrite H0 truediv_zero_not_finite.
  - by split=> /= ->; rewrite truediv_zero_not_finite.
  - split=> Hw; split=> H0.
    + apply/allP => sr /mem_summary [k _ ->] /=.
      rewrite H0 truediv_zero (group_sum_eq0 _ Hw) ?eqxx //.
      by rewrite -unlinked_sumE.
    + rewrite /= H0 truediv_zero unlinked_sumE.
      by rewrite (column_sum_filter_eq0 _ Hw) ?eqxx.
    + apply/allP => sr /mem_summary [k _ ->] /=.
      rewrite H0 truediv_zero (group_sum_eq0 _ Hw) ?eqxx //.
      by rewrite -linked_sumE.
    + rewrite /= H0 truediv_zero linked_sumE.
      by rewrite (column_sum_filter_eq0 _ Hw) ?eqxx.
Qed.

Lemma zero_denominator_percent_witness :
  zero_weight_rows != [::] /\
  exists tv tot,
    [/\ concat_totals zero_weight_rows
          = inr (summary zero_weight_rows ++ [:: tv; tot]),
        unlinked_total zero_weight_rows = 0,
        Series_sum (unlinked zero_weight_rows) = 0,
        unlinked_weight_percent tv = NaN
      & all (fun sr => unlinked_weight_percent sr == NaN)
            (summary zero_weight_rows)].
Proof.
  have Hne : zero_weight_rows != [::] by vm_compute.
  have Hw : nonneg_weights unlinked_weight zero_weight_rows by vm_compute.
  have Ht : unlinked_total zero_weight_rows = 0 by apply/eqP; vm_compute.
  have Hs : Series_sum (unlinked zero_weight_rows) = 0
    by apply/eqP; vm_compute.
  split=> //.
  have [tv [tot [[E _] _ _ _ [/(_ Hw) [Hall Htv] _]]]] :=
    zero_denominator_percent Hne.
  by exists tv, tot; split=> //; exact: Htv.
Defined.

(** C6: when the three denominators [unweighted.sum()], [unlinked.sum()]
    and [linked.sum()] are not zero, each percent column of the summary
    frame adds up to exactly 1. *)
Theorem percent_columns_sum_to_one (df : DataFrame) :
  Series_sum (unweighted df) != 0%N ->
  Series_sum (unlinked df) != 0 ->
  Series_sum (linked df) != 0 ->
  [/\ fsum [seq unweighted_percent sr | sr <- summary df] = Fin 1,
      fsum [seq unlinked_weight_percent sr | sr <- summary df] = Fin 1
    & fsum [seq linked_weight_percent sr | sr <- summary df] = Fin 1].
Proof.
  move=> Hn Hu Hl; rewrite summaryE -!map_comp.
  have Hd : (Series_sum (unweighted df))%:R != 0 :> rat by rewrite pnatr_eq0.
  have En : (Series_sum (unweighted df))%:R
            = \sum_(k <- group_keys df) (size (get_group df k))%:R :> rat.
    by rewrite Series_sumE unweightedE big_map natr_sum.
  have Eu : Series_sum (unlinked df)
            = \sum_(k <- group_keys df)
                column_sum [seq unlinked_weight r | r <- get_group df k].
    by rewrite Series_sumE unlinkedE big_map.
  have El : Series_sum (linked df)
            = \sum_(k <- group_keys df)
                column_sum [seq linked_weight r | r <- get_group df k].
    by rewrite Series_sumE linkedE big_map.
  split.
  - by rewrite (fsum_ratio _ _ Hd) -En divff.
  - by rewrite (fsum_ratio _ _ Hu) -Eu divff.
  - by rewrite (fsum_ratio _ _ Hl) -El divff.
Qed.

Lemma percent_columns_sum_to_one_witness :
  [/\ Series_sum (unweighted example_rows) != 0%N,
      Series_sum (unlinked example_rows) != 0
    & Series_sum (linked example_rows) != 0] /\
  [/\ fsum [seq unweighted_percent sr | sr <- summary example_rows] = Fin 1,
      fsum [seq unlinked_weight_percent sr | sr <- summary example_rows]
        = Fin 1
    & fsum [seq linked_weight_percent sr | sr <- summary example_rows]
        = Fin 1].
Proof.
  have Hn : Series_sum (unweighted example_rows) != 0%N by vm_compute.
  have Hu : Series_sum (unlinked example_rows) != 0 by vm_compute.
  have Hl : Series_sum (linked example_rows) != 0 by vm_compute.
  split; first by split.
  exact: (percent_columns_sum_to_one Hn Hu Hl).
Defined.

(** C7: on the worked example (categories Bus, Bus, Rail and a missing
    one, both weights 1, 1, 2, 5) the frame has the rows Bus with count 2
    and unweighted percentage 2/3, Rail with count 1 and 1/3, "Total
    valid" with count 3 and 3/4, and "Total" with count 4, both weight
    sums 9 and missing percentages; the "Total" dict has no percent
    key. *)
Theorem example_aggregation :
  concat_totals example_rows
  = inr [:: SummaryRow "Bus" 2 (Fin (2%:R / 3%:R))
              2%:R (Fin (2%:R / 4%:R)) 2%:R (Fin (2%:R / 4%:R));
            SummaryRow "Rail" 1 (Fin (1 / 3%:R))
              2%:R (Fin (2%:R / 4%:R)) 2%:R (Fin (2%:R / 4%:R));
            SummaryRow "Total valid" 3 (Fin (3%:R / 4%:R))
              4%:R (Fin (4%:R / 9%:R)) 4%:R (Fin (4%:R / 9%:R));
            SummaryRow "Total" 4 NaN 9%:R NaN 9%:R NaN]
  /\ [/\ dict_unweighted_percent (total_dict example_rows) = None,
         dict_unlinked_weight_percent (total_dict example_rows) = None
       & dict_linked_weight_percent (total_dict example_rows) = None].
Proof. by split; first by apply/eqP; vm_compute. Qed.

(** C8: the figure holds exactly three bar traces, named as in the
    source, one per percent column of the summary frame.  Each trace has
    the summary frame's index as its x values: the group keys, which are
    distinct and are exactly the categories that occur in the input, so
    that the two appended total rows are not part of any trace.  The
    y-axis range is the constant [0, 1]. *)
Theorem chart_series (df : DataFrame) :
  [/\ [seq name b | b <- data (figure df)]
      = [:: "Unweighted"%string; "Weighted (Unlinked)"%string;
            "Weighted (Linked)"%string],
      [seq x b | b <- data (figure df)]
      = [:: group_keys df; group_keys df; group_keys df],
      [seq y b | b <- data (figure df)]
      = [:: [seq unweighted_percent sr | sr <- summary df];
            [seq unlinked_weight_percent sr | sr <- summary df];
            [seq linked_weight_percent sr | sr <- summary df]],
      uniq (group_keys df)
      /\ (forall k : string,
            (k \in group_keys df)
            = (Some k \in [seq transit_mode r | r <- df]))
    & omap yaxis_range (layout (figure df)) = Some (0, 1)
      /\ omap yaxis_tickformat (layout (figure df)) = Some ",.0%"%string].
Proof.
  split=> //; first by rewrite /= label_summary.
  by split; [exact: group_keys_uniq | exact: mem_group_keys].
Qed.

(** C9: a row that has a category and lacks a weight is counted in the
    row of its category, whose count is one more than the count of that
    category among the other rows, and it is left out of the "Total valid"
    count, which is the number of other rows with every field present. *)
Theorem missing_weight_row_counted (df1 df2 : DataFrame) (r : row)
    (c : string) :
  transit_mode r = Some c ->
  ~~ (unlinked_weight r && linked_weight r) ->
  (exists sr,
     [/\ sr \in summary (df1 ++ r :: df2), label sr = c
       & unweighted_count sr = (count (in_category c) (df1 ++ df2)).+1])
  /\
  (exists tv tot,
     [/\ concat_totals (df1 ++ r :: df2)
           = inr (summary (df1 ++ r :: df2) ++ [:: tv; tot]),
         label tv = "Total valid"%string
       & unweighted_count tv = size (dropna (df1 ++ df2))]).
Proof.
  move=> Hc Hw; split.
  - exists (category_row (df1 ++ r :: df2) c); split=> //=.
    + rewrite summaryE; apply: map_f.
      by rewrite mem_group_keys -Hc map_f // mem_cat inE eqxx orbT.
    + rewrite get_group_size !count_cat /= /in_category Hc eqxx.
      by rewrite add1n addnS.
  - exists (total_valid_row (df1 ++ r :: df2)), (total_row (df1 ++ r :: df2)).
    split=> //=; first by rewrite concat_totalsE //; case: (df1).
    rewrite /total_valid /dropna !filter_cat /=.
    by rewrite (negPf Hw) andbF.
Qed.

Lemma missing_weight_row_counted_witness :
  transit_mode (Row (Some "Bus"%string) None (Some 1)) = Some "Bus"%string /\
  ~~ (unlinked_weight (Row (Some "Bus"%string) None (Some 1))
      && linked_weight (Row (Some "Bus"%string) None (Some 1))) /\
  exists sr,
    [/\ sr \in summary (example_rows
                        ++ Row (Some "Bus"%string) None (Some 1) :: [::]),
        label sr = "Bus"%string
      & unweighted_count sr = 3%N].
Proof.
  split; first by [].
  split; first by [].
  have [] := @missing_weight_row_counted example_rows [::]
               (Row (Some "Bus"%string) None (Some 1)) "Bus"%string
               (erefl _) (erefl _).
  by move=> [sr [H1 H2 H3]] _; exists sr; split.
Defined.

(** C10: a missing weight adds nothing to a weight sum.  Each category's
    weight sum, the "Total valid" row's weight sums and the "Total" row's
    weight sums are the sums of the weights that are present, over the
    category's rows, the rows with a category and all rows respectively
    (which is also the sum with 0 put for each missing weight); they are
    rationals, so never a missing marker.  The two total rows exist
    unless the row set is empty. *)
Theorem weight_sums_skip_missing (df : DataFrame) :
  [/\ all (fun sr =>
             (unlinked_weight_count sr
                == present_sum unlinked_weight
                     [seq r <- df | in_category (label sr) r])
             && (linked_weight_count sr
                   == present_sum linked_weight
                        [seq r <- df | in_category (label sr) r]))
          (summary df),
      match concat_totals df with
      | inr t =>
          exists tv tot,
            [/\ t = summary df ++ [:: tv; tot],
                label tv = "Total valid"%string /\ label tot = "Total"%string,
                unlinked_weight_count tv
                  = present_sum unlinked_weight [seq r <- df | has_category r]
                /\ linked_weight_count tv
                  = present_sum linked_weight [seq r <- df | has_category r]
              & unlinked_weight_count tot = present_sum unlinked_weight df
                /\ linked_weight_count tot = present_sum linked_weight df]
      | inl _ => df = [::]
      end
    & forall (w : row -> option rat) (rows : seq row),
        present_sum w rows = sumq [seq odflt 0 (w r) | r <- rows]].
Proof.
  split.
  - apply/allP => sr /mem_summary [k _ ->] /=.
    by rewrite !column_sum_present !eqxx.
  - case: (eqVneq df [::]) => [->|Hdf] //.
    rewrite concat_totalsE //.
    exists (total_valid_row df), (total_row df); split=> //=.
    + by rewrite unlinked_sumE linked_sumE !column_sum_present.
    + by rewrite /unlinked_total /linked_total !column_sum_present.
  - move=> w rows; rewrite -column_sum_present column_sumE sumqE.
    by rewrite !big_map.
Qed.
(** * Further properties of the notebook *)

From Stdlib Require BinNat.

Import Order.Theory.

Section StringOrder.

Lemma ascii_compare_trans (c : comparison) (a1 a2 a3 : Ascii.ascii) :
  Ascii.compare a1 a2 = c -> Ascii.compare a2 a3 = c ->
  Ascii.compare a1 a3 = c.
Proof.
  rewrite /Ascii.compare; case: c.
  - by move=> /BinNat.N.compare_eq_iff -> /BinNat.N.compare_eq_iff ->; rewrite BinNat.N.compare_refl.
  - move=> /BinNat.N.compare_lt_iff H1 /BinNat.N.compare_lt_iff H2.
    by apply/BinNat.N.compare_lt_iff; apply: BinNat.N.lt_trans H1 H2.
  - move=> /BinNat.N.compare_gt_iff H1 /BinNat.N.compare_gt_iff H2.
    by apply/BinNat.N.compare_gt_iff; apply: BinNat.N.lt_trans H2 H1.
Qed.

Lemma string_compare_trans (c : comparison) (s1 s2 s3 : string) :
  String.compare s1 s2 = c -> String.compare s2 s3 = c ->
  String.compare s1 s3 = c.
Proof.
  elim: s1 s2 s3 => [|a1 s1 IH] [|a2 s2] [|a3 s3] //=; try by case: c.
    by move=> <-.
  case E12: (Ascii.compare a1 a2); case E23: (Ascii.compare a2 a3) => //.
  - by rewrite (ascii_compare_trans E12 E23); exact: IH.
  - by move: E12 => /Ascii.compare_eq_iff ->; rewrite E23.
  - by move: E12 => /Ascii.compare_eq_iff ->; rewrite E23.
  - by move: E23 => /Ascii.compare_eq_iff <-; rewrite E12.
  - by rewrite (ascii_compare_trans E12 E23).
  - by move=> <-.
  - by move: E23 => /Ascii.compare_eq_iff <-; rewrite E12.
  - by move=> <-.
  - by rewrite (ascii_compare_trans E12 E23).
Qed.

Lemma string_leb_total : ssrbool.total String.leb.
Proof. by move=> s1 s2; case: (String.leb_total s1 s2) => ->; rewrite ?orbT. Qed.

Lemma string_leb_anti : antisymmetric String.leb.
Proof. by move=> s1 s2 /andP [H1 H2]; apply: String.leb_antisym. Qed.

Lemma string_leb_trans : transitive String.leb.
Proof.
  move=> s2 s1 s3; rewrite /String.leb.
  case E12: (String.compare s1 s2); case E23: (String.compare s2 s3) => // _ _.
  - by rewrite (string_compare_trans E12 E23).
  - by move: E12 => /String.compare_eq_iff ->; rewrite E23.
  - by move: E23 => /String.compare_eq_iff <-; rewrite E12.
  - by rewrite (string_compare_trans E12 E23).
Qed.

End StringOrder.

Section GroupStructure.

Lemma perm_group_keys (df1 df2 : DataFrame) :
  perm_eq df1 df2 -> group_keys df1 = group_keys df2.
Proof.
  move=> Hp; apply/perm_sortP;
    [exact: string_leb_total | exact: string_leb_trans
    | exact: string_leb_anti |].
  apply: perm_undup => k; rewrite !mem_pmap.
  by apply: perm_mem; apply: perm_map.
Qed.

(** The three group-by Series are functions of the group keys and the
    groups' sizes and column sums. *)
Lemma eq_group_series (df1 df2 : DataFrame) :
  group_keys df1 = group_keys df2 ->
  (forall k, size (get_group df1 k) = size (get_group df2 k)) ->
  (forall k w, column_sum [seq w r | r <- get_group df1 k]
               = column_sum [seq w r | r <- get_group df2 k]) ->
  [/\ unweighted df1 = unweighted df2, unlinked df1 = unlinked df2
    & linked df1 = linked df2].
Proof.
  move=> Ek Es Ew; rewrite !unweightedE !unlinkedE !linkedE Ek.
  by split; apply: eq_map => k; rewrite ?Es ?Ew.
Qed.

Lemma eq_summary (df1 df2 : DataFrame) :
  unweighted df1 = unweighted df2 -> unlinked df1 = unlinked df2 ->
  linked df1 = linked df2 ->
  summary df1 = summary df2 /\ figure df1 = figure df2.
Proof. by rewrite /figure /summary => -> -> ->. Qed.

Lemma get_group_filter (df : DataFrame) (k : string) :
  get_group [seq r <- df | has_category r] k = get_group df k.
Proof.
  rewrite /get_group -filter_predI; apply: eq_filter => r /=.
  by rewrite /has_category; case: (transit_mode r) => [c|]; rewrite ?andbT.
Qed.

Lemma group_keys_filter (df : DataFrame) :
  group_keys [seq r <- df | has_category r] = group_keys df.
Proof.
  rewrite /group_keys; congr (sort _ (undup _)).
  elim: df => [|r df IH] //=; rewrite /has_category.
  by case E: (transit_mode r) => [c|] /=; rewrite ?E IH.
Qed.

Lemma group_keys_nil (df : DataFrame) :
  (group_keys df == [::]) = ~~ has has_category df.
Proof.
  apply/eqP/hasPn => [E r Hr|Hn].
    rewrite /has_category; case Ec: (transit_mode r) => [c|] //.
    have : c \in group_keys df by rewrite mem_group_keys -Ec map_f.
    by rewrite E.
  case E: (group_keys df) => [|k ks] //.
  have : k \in group_keys df by rewrite E inE eqxx.
  rewrite mem_group_keys => /mapP [r Hr Ek].
  by have := Hn r Hr; rewrite /has_category -Ek.
Qed.

End GroupStructure.

(** X4: the order of the input rows does not matter for the labels and
    the unweighted columns.  Two row sets that are permutations of each
    other give the same labels, counts and unweighted percentages in the
    summary frame and in the table frame, or raise the same exception. *)
Theorem counts_row_order_irrelevant (df1 df2 : DataFrame) :
  perm_eq df1 df2 ->
  [seq count_columns sr | sr <- summary df1]
  = [seq count_columns sr | sr <- summary df2]
  /\ match concat_totals df1, concat_totals df2 with
     | inr t1, inr t2 =>
         [seq count_columns sr | sr <- t1] = [seq count_columns sr | sr <- t2]
     | inl e1, inl e2 => e1 = e2
     | _, _ => False
     end.
Proof.
  move=> Hp.
  have Ek := perm_group_keys Hp.
  have Es k : size (get_group df1 k) = size (get_group df2 k).
    by apply: perm_size; rewrite perm_filter.
  have En : Series_sum (unweighted df1) = Series_sum (unweighted df2).
    rewrite !Series_sumE !unweightedE !big_map Ek.
    by apply: eq_bigr => k _ /=; rewrite Es.
  have Et : total df1 = total df2 by rewrite /total (perm_size Hp).
  have Ev : total_valid df1 = total_valid df2.
    by rewrite /total_valid /dropna; apply: perm_size; rewrite perm_filter.
  have Hs : [seq count_columns sr | sr <- summary df1]
            = [seq count_columns sr | sr <- summary df2].
    rewrite !summaryE Ek -!map_comp; apply: eq_map => k.
    by rewrite /count_columns /= En Es.
  split=> //; case: (eqVneq df1 [::]) => [E1|H1].
    by move: Hp; rewrite E1 perm_sym => /perm_nilP ->.
  have H2 : df2 != [::] by rewrite -size_eq0 -(perm_size Hp) size_eq0.
  rewrite !concat_totalsE // !map_cat Hs; congr (_ ++ _).
  by rewrite /count_columns /= Et Ev.
Qed.

Lemma counts_row_order_irrelevant_witness :
  perm_eq example_rows (rev example_rows)
  /\ [seq count_columns sr | sr <- summary example_rows]
     = [seq count_columns sr | sr <- summary (rev example_rows)].
Proof.
  have Hp : perm_eq example_rows (rev example_rows) by vm_compute.
  split; first exact: Hp.
  exact: (proj1 (counts_row_order_irrelevant Hp)).
Defined.

(** X12: the rows without a category have no influence on the
    per-category rows or on the chart: dropping them from the input
    leaves the summary frame and the figure unchanged. *)
Theorem null_category_rows_ignored (df : DataFrame) :
  summary [seq r <- df | has_category r] = summary df
  /\ figure [seq r <- df | has_category r] = figure df.
Proof.
  have [Hn Hu Hl] : [/\ unweighted [seq r <- df | has_category r]
                          = unweighted df,
                        unlinked [seq r <- df | has_category r] = unlinked df
                      & linked [seq r <- df | has_category r] = linked df].
    apply: eq_group_series; first exact: group_keys_filter.
    - by move=> k; rewrite get_group_filter.
    - by move=> k w; rewrite get_group_filter.
  exact: eq_summary.
Qed.

(** X8: the summary frame has no row exactly when no input row has a
    category; the three traces of the figure are then empty. *)
Theorem summary_empty (df : DataFrame) :
  (summary df == [::]) = ~~ has has_category df
  /\ (~~ has has_category df ->
      all (fun b => (x b == [::]) && (y b == [::])) (data (figure df))).
Proof.
  have E : (summary df == [::]) = ~~ has has_category df.
    by rewrite -group_keys_nil summaryE -!size_eq0 size_map.
  by split=> //; rewrite -E /= => /eqP ->.
Qed.

Lemma summary_empty_witness :
  ~~ has has_category [:: Row None (Some 1) None]
  /\ all (fun b => (x b == [::]) && (y b == [::]))
         (data (figure [:: Row None (Some 1) None])).
Proof.
  have H : ~~ has has_category [:: Row None (Some 1) None] by vm_compute.
  split; first exact: H.
  exact: (proj2 (summary_empty [:: Row None (Some 1) None]) H).
Defined.

Section DataCell.

Variables (modes : modes_file) (weights : weights_file).

Lemma size_concat_axis1 :
  size (concat_axis1 modes weights) = maxn (size modes) (size weights).
Proof. by rewrite /concat_axis1 size_map size_iota. Qed.




End DataCell.


(** X2: the rows past the end of the shorter file are never valid: the
    rows that [dropna] keeps are those of the two files cut to the length
    of the shorter one, so the "Total valid" count is at most that
    length. *)
Theorem concat_axis1_valid_rows (modes : modes_file) (weights : weights_file) :
  dropna (concat_axis1 modes weights)
  = dropna (concat_axis1
              (take (minn (size modes) (size weights)) modes)
              (take (minn (size modes) (size weights)) weights))
  /\ (total_valid (concat_axis1 modes weights)
      <= minn (size modes) (size weights))%N.
Proof.
  set n := minn (size modes) (size weights).
  have Hna : size (take n modes) = n.
    by rewrite size_take_min; apply/minn_idPl; rewrite geq_minl.
  have Hnw : size (take n weights) = n.
    by rewrite size_take_min; apply/minn_idPl; rewrite geq_minr.
  have E : dropna (concat_axis1 modes weights)
           = dropna (concat_axis1 (take n modes) (take n weights)).
    rewrite /dropna /concat_axis1 Hna Hnw maxnn !filter_map.
    set p := preim _ _; set q := preim _ _.
    set m := maxn _ _.
    have -> : m = (n + (m - n))%N by rewrite subnKC // /n /m leq_max geq_minl.
    rewrite iotaD filter_cat add0n.
    have -> : [seq i <- iota n (m - n) | p i] = [::].
      rewrite -(filter_pred0 (iota n (m - n))).
      apply: eq_in_filter => i; rewrite mem_iota /p => /andP [Hi _] /=.
      move: Hi; rewrite /n geq_min => /orP [Hi|Hi].
        by rewrite nth_default.
      by rewrite [nth _ weights i]nth_default //= andbF.
    have Hin i : i \in iota 0 n ->
        nth None (take n modes) i = nth None modes i
        /\ nth (None, None) (take n weights) i = nth (None, None) weights i.
      by rewrite mem_iota add0n => /andP [_ Hi]; rewrite !nth_take.
    have -> : [seq i <- iota 0 n | p i] = [seq i <- iota 0 n | q i].
      by apply: eq_in_filter => i /Hin [Ea Ew]; rewrite /p /q /= Ea Ew.
    rewrite cats0.
    by apply/eq_in_map => i; rewrite mem_filter => /andP [_ /Hin [-> ->]].
  split=> //; rewrite /total_valid E /dropna size_filter.
  by rewrite (leq_trans (count_size _ _)) // size_concat_axis1 Hna Hnw maxnn.
Qed.

Section PercentBounds.

Variable df : DataFrame.

Lemma get_group_pos (k : string) :
  k \in group_keys df -> (0 < size (get_group df k))%N.
Proof.
  rewrite mem_group_keys get_group_size -has_count => /mapP [r Hr E].
  by apply/hasP; exists r => //=; rewrite -E.
Qed.

Lemma get_group_le (k : string) :
  (size (get_group df k) <= count has_category df)%N.
Proof.
  rewrite get_group_size; apply: sub_count => r /= /eqP E.
  by rewrite /has_category E.
Qed.

End PercentBounds.

(** X5: every per-category row counts at least one input row, and its
    unweighted percentage is a finite number above 0 and at most 1,
    whatever the input. *)
Theorem category_count_positive (df : DataFrame) :
  all (fun sr =>
         (0 < unweighted_count sr)%N
         && (if unweighted_percent sr is Fin q then (0 < q) && (q <= 1)
             else false))
      (summary df).
Proof.
  apply/allP => sr /mem_summary [k Hk ->] /=.
  have Hpos := get_group_pos Hk.
  have Hle := get_group_le df k.
  have Hd : 0 < (count has_category df)%:R :> rat.
    by rewrite ltr0n (leq_trans Hpos).
  have Hd0 : (count has_category df)%:R != 0 :> rat by rewrite gt_eqF.
  rewrite Hpos unweighted_sumE (truediv_Fin _ Hd0) /=.
  apply/andP; split; first by rewrite divr_gt0 // ltr0n.
  by rewrite ler_pdivrMr // mul1r ler_nat.
Qed.

Section CompleteRows.

Variable df : DataFrame.

Lemma total_valid_count : total_valid df = count complete df.
Proof. by rewrite /total_valid /dropna size_filter. Qed.

End CompleteRows.

(** X7: on every non-empty row set the "Total valid" row's unweighted
    percentage is a finite number between 0 and 1, and it is 1 exactly
    when no row has a missing field. *)
Theorem total_valid_percent_bounds (df : DataFrame) :
  df != [::] ->
  exists tv tot q,
    [/\ concat_totals df = inr (summary df ++ [:: tv; tot]),
        label tv = "Total valid"%string,
        unweighted_percent tv = Fin q,
        (0 <= q) && (q <= 1)
      & (q == 1) = all complete df].
Proof.
  move=> Hdf; exists (total_valid_row df), (total_row df).
  exists ((total_valid df)%:R / (total df)%:R).
  have Ht : 0 < (total df)%:R :> rat by rewrite ltr0n /total lt0n size_eq0.
  have Hle : (total_valid df <= total df)%N.
    by rewrite total_valid_count /total count_size.
  split=> //; first by rewrite concat_totalsE.
  - apply/andP; split; first by rewrite divr_ge0 // ler0n.
    by rewrite ler_pdivrMr // mul1r ler_nat.
  - have Ht0 : (total df)%:R != 0 :> rat by rewrite gt_eqF.
    rewrite -[X in _ == X](divff Ht0).
    rewrite (inj_eq (divIf Ht0)) eqr_nat.
    by rewrite total_valid_count /total all_count.
Qed.

Lemma total_valid_percent_bounds_witness :
  example_rows != [::] /\
  exists tv tot q,
    [/\ concat_totals example_rows
          = inr (summary example_rows ++ [:: tv; tot]),
        label tv = "Total valid"%string,
        unweighted_percent tv = Fin q,
        (0 <= q) && (q <= 1)
      & (q == 1) = all complete example_rows].
Proof.
  have Hne : example_rows != [::] by vm_compute.
  split; first exact: Hne.
  exact: (total_valid_percent_bounds Hne).
Defined.

Lemma th_to_html (count_format percent_format : float64 -> string)
    (t : seq summary_row) :
  [seq th r | r <- to_html count_format percent_format t]
  = [seq label sr | sr <- t].
Proof. by rewrite /to_html -map_comp. Qed.

(** X9: on every non-empty row set the rendered table has one row per
    observed category, in the order of the group keys, followed by the
    rows "Total valid" and "Total"; every row has six cells; and the row
    headers are pairwise distinct exactly when neither "Total valid" nor
    "Total" is itself a category of the input. *)
Theorem table_shape (count_format percent_format : float64 -> string)
    (df : DataFrame) :
  df != [::] ->
  exists html,
    [/\ table count_format percent_format df = inr html,
        [seq th r | r <- html]
        = group_keys df ++ [:: "Total valid"%string; "Total"%string],
        all (fun r => size (td r) == 6%N) html
      & uniq [seq th r | r <- html]
        = ("Total valid"%string \notin group_keys df)
          && ("Total"%string \notin group_keys df)].
Proof.
  move=> Hdf; rewrite /table concat_totalsE //.
  exists (to_html count_format percent_format
            (summary df ++ [:: total_valid_row df; total_row df])).
  have Eth : [seq th r | r <- to_html count_format percent_format
                              (summary df ++ [:: total_valid_row df;
                                                 total_row df])]
             = group_keys df ++ [:: "Total valid"%string; "Total"%string].
    by rewrite th_to_html map_cat label_summary.
  split=> //; first by rewrite /to_html all_map; apply/allP.
  by rewrite Eth cat_uniq group_keys_uniq /= orbF negb_or andbT.
Qed.

Lemma table_shape_witness :
  example_rows != [::] /\
  exists html,
    table (fun _ => "n"%string) (fun _ => "p"%string) example_rows = inr html
    /\ [seq th r | r <- html]
       = group_keys example_rows ++ [:: "Total valid"%string; "Total"%string].
Proof.
  have Hne : example_rows != [::] by vm_compute.
  split; first exact: Hne.
  have [html [E Hth _ _]] :=
    table_shape (fun _ => "n"%string) (fun _ => "p"%string) Hne.
  by exists html.
Defined.


Section ColumnDependence.

Lemma pmap_map_id (T U : Type) (f : T -> option U) (s : seq T) :
  pmap f s = pmap id [seq f x | x <- s].
Proof. by elim: s => [|x s IH] //=; rewrite IH. Qed.

Lemma group_keys_column (df1 df2 : DataFrame) :
  [seq transit_mode r | r <- df1] = [seq transit_mode r | r <- df2] ->
  group_keys df1 = group_keys df2.
Proof. by move=> E; rewrite /group_keys !(pmap_map_id transit_mode) E. Qed.

Lemma get_group_size_column (df1 df2 : DataFrame) (k : string) :
  [seq transit_mode r | r <- df1] = [seq transit_mode r | r <- df2] ->
  size (get_group df1 k) = size (get_group df2 k).
Proof.
  move=> E; rewrite !get_group_size.
  by rewrite -!(count_map transit_mode (pred1 (Some k))) E.
Qed.

Lemma group_sum_column (w : row -> option rat) (df1 df2 : DataFrame)
    (k : string) :
  [seq (transit_mode r, w r) | r <- df1]
  = [seq (transit_mode r, w r) | r <- df2] ->
  column_sum [seq w r | r <- get_group df1 k]
  = column_sum [seq w r | r <- get_group df2 k].
Proof.
  move=> E.
  have H (df : DataFrame) :
      [seq w r | r <- get_group df k]
      = [seq p.2 | p <- [seq p <- [seq (transit_mode r, w r) | r <- df]
                        | p.1 == Some k]].
    by rewrite filter_map -map_comp.
  by rewrite !H E.
Qed.

Lemma fst_column (w : row -> option rat) (df1 df2 : DataFrame) :
  [seq (transit_mode r, w r) | r <- df1]
  = [seq (transit_mode r, w r) | r <- df2] ->
  [seq transit_mode r | r <- df1] = [seq transit_mode r | r <- df2].
Proof.
  move=> E.
  have H (df : DataFrame) :
      [seq transit_mode r | r <- df]
      = [seq p.1 | p <- [seq (transit_mode r, w r) | r <- df]].
    by rewrite -map_comp.
  by rewrite !H E.
Qed.

End ColumnDependence.

(** X15: the columns of the summary frame depend only on the input
    columns they are computed from.  Two row sets with the same category
    column and the same unlinked weights give the same labels, counts,
    unweighted percentages, unlinked weight sums and unlinked weight
    percentages, whatever their linked weights; and likewise with the two
    series exchanged. *)
Theorem summary_column_dependence (df1 df2 : DataFrame) :
  ([seq (transit_mode r, unlinked_weight r) | r <- df1]
   = [seq (transit_mode r, unlinked_weight r) | r <- df2] ->
   [seq (label sr, unweighted_count sr, unweighted_percent sr,
         unlinked_weight_count sr, unlinked_weight_percent sr)
   | sr <- summary df1]
   = [seq (label sr, unweighted_count sr, unweighted_percent sr,
           unlinked_weight_count sr, unlinked_weight_percent sr)
     | sr <- summary df2])
  /\ ([seq (transit_mode r, linked_weight r) | r <- df1]
      = [seq (transit_mode r, linked_weight r) | r <- df2] ->
      [seq (label sr, unweighted_count sr, unweighted_percent sr,
            linked_weight_count sr, linked_weight_percent sr)
      | sr <- summary df1]
      = [seq (label sr, unweighted_count sr, unweighted_percent sr,
              linked_weight_count sr, linked_weight_percent sr)
        | sr <- summary df2]).
Proof.
  split=> E; have Ec := fst_column E; have Ek := group_keys_column Ec.
  - have En : Series_sum (unweighted df1) = Series_sum (unweighted df2).
      rewrite !Series_sumE !unweightedE !big_map Ek.
      by apply: eq_bigr => k _ /=; exact: get_group_size_column.
    have Eu : Series_sum (unlinked df1) = Series_sum (unlinked df2).
      rewrite !Series_sumE !unlinkedE !big_map Ek.
      by apply: eq_bigr => k _ /=; exact: group_sum_column.
    rewrite !summaryE Ek -!map_comp; apply: eq_map => k /=.
    by rewrite En Eu (get_group_size_column k Ec)
         (group_sum_column k E).
  - have En : Series_sum (unweighted df1) = Series_sum (unweighted df2).
      rewrite !Series_sumE !unweightedE !big_map Ek.
      by apply: eq_bigr => k _ /=; exact: get_group_size_column.
    have El : Series_sum (linked df1) = Series_sum (linked df2).
      rewrite !Series_sumE !linkedE !big_map Ek.
      by apply: eq_bigr => k _ /=; exact: group_sum_column.
    rewrite !summaryE Ek -!map_comp; apply: eq_map => k /=.
    by rewrite En El (get_group_size_column k Ec)
         (group_sum_column k E).
Qed.

Lemma summary_column_dependence_witness :
  [seq (transit_mode r, unlinked_weight r) | r <- example_rows]
  = [seq (transit_mode r, unlinked_weight r)
    | r <- [seq Row (transit_mode r) (unlinked_weight r) None
           | r <- example_rows]]
  /\ [seq (label sr, unweighted_count sr, unweighted_percent sr,
           unlinked_weight_count sr, unlinked_weight_percent sr)
     | sr <- summary example_rows]
     = [seq (label sr, unweighted_count sr, unweighted_percent sr,
             unlinked_weight_count sr, unlinked_weight_percent sr)
       | sr <- summary [seq Row (transit_mode r) (unlinked_weight r) None
                       | r <- example_rows]].
Proof.
  have E : [seq (transit_mode r, unlinked_weight r) | r <- example_rows]
           = [seq (transit_mode r, unlinked_weight r)
             | r <- [seq Row (transit_mode r) (unlinked_weight r) None
                    | r <- example_rows]] by [].
  split; first exact: E.
  exact: (proj1 (summary_column_dependence _ _) E).
Defined.

(** X16: a percentage that is undefined shows up in the rendered table
    like a blank one.  On a non-empty row set whose unlinked weights are
    not negative and add up to zero over the categories, the unlinked
    percent cell of every per-category row is rendered as the text NaN,
    whatever the formatters are; likewise for the linked series. *)
Theorem zero_series_rendering
    (count_format percent_format : float64 -> string) (df : DataFrame) :
  df != [::] ->
  exists tail,
    [/\ table count_format percent_format df
        = inr (to_html count_format percent_format (summary df) ++ tail),
        nonneg_weights unlinked_weight df -> Series_sum (unlinked df) = 0 ->
        all (fun r => nth EmptyString (td r) 3 == "NaN"%string)
            (to_html count_format percent_format (summary df))
      & nonneg_weights linked_weight df -> Series_sum (linked df) = 0 ->
        all (fun r => nth EmptyString (td r) 5 == "NaN"%string)
            (to_html count_format percent_format (summary df))].
Proof.
  move=> Hdf.
  exists (to_html count_format percent_format
            [:: total_valid_row df; total_row df]).
  split; first by rewrite /table concat_totalsE // /to_html map_cat.
  - move=> Hw H0; rewrite /to_html all_map; apply/allP => sr.
    move=> /mem_summary [k _ ->] /=.
    rewrite H0 truediv_zero (group_sum_eq0 _ Hw) ?eqxx //.
    by rewrite -unlinked_sumE.
  - move=> Hw H0; rewrite /to_html all_map; apply/allP => sr.
    move=> /mem_summary [k _ ->] /=.
    rewrite H0 truediv_zero (group_sum_eq0 _ Hw) ?eqxx //.
    by rewrite -linked_sumE.
Qed.

Lemma zero_series_rendering_witness :
  zero_weight_rows != [::]
  /\ nonneg_weights unlinked_weight zero_weight_rows
  /\ Series_sum (unlinked zero_weight_rows) = 0
  /\ all (fun r => nth EmptyString (td r) 3 == "NaN"%string)
         (to_html (fun _ => "n"%string) (fun _ => "p"%string)
            (summary zero_weight_rows)).
Proof.
  have Hne : zero_weight_rows != [::] by vm_compute.
  have Hw : nonneg_weights unlinked_weight zero_weight_rows by vm_compute.
  have H0 : Series_sum (unlinked zero_weight_rows) = 0
    by apply/eqP; vm_compute.
  split; first exact: Hne.
  split; first exact: Hw.
  split; first exact: H0.
  have [tail [_ H _]] :=
    zero_series_rendering (fun _ => "n"%string) (fun _ => "p"%string) Hne.
  exact: (H Hw H0).
Defined.
